(** * wdk-sys binding input headers: conditional inclusion and descriptor layouts

    The development embeds the two C headers that feed the binding
    generator of [wdk-sys]:

    - the main input header (the unnamed source file [part_000]), made of
      [#if]/[#ifdef] selected [#include] lists and of the two typedefs
      [KGDTENTRY64] and [KIDTENTRY64];
    - [crates/wdk-sys/src/usb-input.h], an [#include] list.

    A header is a list of directives.  Preprocessing it under a set of
    defined macros yields the ordered list of what reaches the compiler
    (included headers and type declarations).  The record types are laid
    out with the rules of the Windows x64 target. *)

From Stdlib Require Import ZArith List String Bool Lia.
Import ListNotations.
Local Open Scope string_scope.
Local Open Scope list_scope.
Local Open Scope Z_scope.
Set Warnings "-register-all".

(** ** C types and their layout *)

Module Layout.

(** The integer types the typedefs use. *)
Inductive scalar : Type :=
  | unsigned_char
  | unsigned_short
  | unsigned_long
  | unsigned_int64.

(** Record types as the source nests them: a [struct] or [union] holds
    named members, bit-fields ([type name : width]) and anonymous
    struct/union members. *)
Inductive ctype : Type :=
  | Scalar (s : scalar)
  | Struct (fs : list field)
  | Union (fs : list field)
with field : Type :=
  | Member (name : string) (t : ctype)
  | BitField (name : string) (s : scalar) (width : Z)
  | Anonymous (t : ctype).

(** Sizes in bytes on Windows x64 (LLP64: [long] is 32 bits wide).  Every
    scalar is aligned to its size. *)
Definition scalar_size (s : scalar) : Z :=
  match s with
  | unsigned_char => 1
  | unsigned_short => 2
  | unsigned_long => 4
  | unsigned_int64 => 8
  end.

(** What the layout needs to know of one field once the field's own type
    has been laid out. *)
Record finfo : Type := mk_finfo {
  f_name : string;          (* empty for an anonymous member *)
  f_size : Z;               (* bytes of the field's type *)
  f_align : Z;              (* alignment of the field's type *)
  f_bits : option Z         (* [Some w] for a bit-field of [w] bits *)
}.

(** A field with its place in the record, in bits. *)
Record placed : Type := mk_placed {
  p_name : string;
  p_offset : Z;
  p_width : Z
}.

Record layout : Type := mk_layout {
  l_size : Z;                     (* bytes *)
  l_align : Z;                    (* bytes *)
  l_unit : option (Z * Z);        (* open bit-field unit: its size in bytes,
                                     the bits still free in it *)
  l_fields : list placed
}.

Definition align_to (x a : Z) : Z := ((x + a - 1) / a) * a.

Definition empty_layout : layout := mk_layout 0 1 None [].

(** A bit-field or member opens fresh storage at the next aligned byte. *)
Definition open_storage (l : layout) (f : finfo) (w : Z) (u : option (Z * Z))
  : layout :=
  let off := align_to (l_size l) (f_align f) in
  mk_layout (off + f_size f) (Z.max (l_align l) (f_align f)) u
            (l_fields l ++ [mk_placed (f_name f) (8 * off) w]).

(** One field of a [struct].  A bit-field joins the open unit when that
    unit has the size of the bit-field's type and enough free bits;
    anything else starts at the next aligned byte. *)
Definition place_struct_field (l : layout) (f : finfo) : layout :=
  match f_bits f with
  | None => open_storage l f (8 * f_size f) None
  | Some w =>
      match l_unit l with
      | Some (usz, free) =>
          if (usz =? f_size f) && (w <=? free)
          then mk_layout (l_size l) (l_align l) (Some (usz, free - w))
                 (l_fields l ++ [mk_placed (f_name f) (8 * l_size l - free) w])
          else open_storage l f w (Some (f_size f, 8 * f_size f - w))
      | None => open_storage l f w (Some (f_size f, 8 * f_size f - w))
      end
  end.

(** One member of a [union]: every member starts at offset 0. *)
Definition place_union_field (l : layout) (f : finfo) : layout :=
  mk_layout (Z.max (l_size l) (f_size f)) (Z.max (l_align l) (f_align f)) None
            (l_fields l ++ [mk_placed (f_name f) 0
                              (match f_bits f with
                               | Some w => w
                               | None => 8 * f_size f
                               end)]).

(** The record ends on a multiple of its alignment. *)
Definition close_layout (l : layout) : layout :=
  mk_layout (align_to (l_size l) (l_align l)) (l_align l) None (l_fields l).

Definition struct_layout (fs : list finfo) : layout :=
  close_layout (fold_left place_struct_field fs empty_layout).

Definition union_layout (fs : list finfo) : layout :=
  close_layout (fold_left place_union_field fs empty_layout).

Fixpoint layout_of (t : ctype) : layout :=
  match t with
  | Scalar s =>
      mk_layout (scalar_size s) (scalar_size s) None []
  | Struct fs => struct_layout (map field_info fs)
  | Union fs => union_layout (map field_info fs)
  end
with field_info (f : field) : finfo :=
  match f with
  | Member name t =>
      mk_finfo name (l_size (layout_of t)) (l_align (layout_of t)) None
  | BitField name s w =>
      mk_finfo name (scalar_size s) (scalar_size s) (Some w)
  | Anonymous t =>
      mk_finfo "" (l_size (layout_of t)) (l_align (layout_of t)) None
  end.

(** [sizeof] and [alignof], in bytes. *)
Definition sizeof (t : ctype) : Z := l_size (layout_of t).
Definition alignof (t : ctype) : Z := l_align (layout_of t).

(** Width in bits, and the placed fields of a record. *)
Definition width (t : ctype) : Z := 8 * sizeof t.
Definition fields_of (t : ctype) : list placed := l_fields (layout_of t).

(** The bits a field list declares, one field after the other: the width
    of the field's type, or of the bit-field itself. *)
Definition declared_bits (f : field) : Z :=
  match f with
  | Member _ t => width t
  | BitField _ _ w => w
  | Anonymous t => width t
  end.

Definition members (t : ctype) : list field :=
  match t with
  | Scalar _ => []
  | Struct fs => fs
  | Union fs => fs
  end.

Definition sum_declared_bits (t : ctype) : Z :=
  fold_right Z.add 0 (map declared_bits (members t)).

(** Fields that follow each other with no gap, from bit [from] on; the
    result is the bit after the last field. *)
Fixpoint contiguous_from (from : Z) (ps : list placed) : option Z :=
  match ps with
  | [] => Some from
  | p :: rest =>
      if p_offset p =? from
      then contiguous_from (from + p_width p) rest
      else None
  end.

(** The two views of a descriptor union: its anonymous [struct] of named
    fields, and its integer member. *)
Fixpoint find_anonymous (fs : list field) : option ctype :=
  match fs with
  | [] => None
  | Anonymous t :: _ => Some t
  | _ :: rest => find_anonymous rest
  end.

Fixpoint find_integer (fs : list field) : option ctype :=
  match fs with
  | [] => None
  | Member _ (Scalar s) :: _ => Some (Scalar s)
  | _ :: rest => find_integer rest
  end.

Definition structured_view (t : ctype) : option ctype :=
  match t with
  | Union fs => find_anonymous fs
  | _ => None
  end.

Definition raw_integer_view (t : ctype) : option ctype :=
  match t with
  | Union fs => find_integer fs
  | _ => None
  end.

(** Whether the two views of a descriptor union have the same width. *)
Definition views_agree (t : ctype) : bool :=
  match structured_view t, raw_integer_view t with
  | Some s, Some r => sizeof s =? sizeof r
  | _, _ => false
  end.

End Layout.

(** ** Directives and preprocessing *)

Module Cpp.

Import Layout.

(** [#include "h"] and [#include <h>]. *)
Inductive include_form : Type := Quoted | Angled.

(** The controlling expressions the headers use: [defined(M)] (also the
    condition of [#ifdef M]) and [||]. *)
Inductive cond : Type :=
  | Defined (m : string)
  | Or (a b : cond).

(** What reaches the compiler: an included header, or
    [typedef <body> name, *pointer_name;] with the tag of its body. *)
Inductive decl : Type :=
  | Header (form : include_form) (name : string)
  | TypeDecl (tag : string) (body : ctype) (name pointer_name : string).

(** A header is a list of directives.  [HashIf c thn els] is
    [#if c thn #else els #endif]; an absent [#else] is an empty [els].
    [HashError] and [StaticAssert] are the two ways a header can stop a
    build by itself: [#error] and
    [static_assert(sizeof(a) == sizeof(b), msg)]. *)
Inductive directive : Type :=
  | HashInclude (form : include_form) (name : string)
  | Typedef (tag : string) (body : ctype) (name pointer_name : string)
  | HashIf (c : cond) (thn els : list directive)
  | HashError (msg : string)
  | StaticAssert (a b : ctype) (msg : string).

(** The output so far and the conditions evaluated so far, both in
    order. *)
Record pp_state : Type := mk_state {
  emitted : list decl;
  tested : list cond
}.

(** A build either yields its whole output or stops with a message and
    no output. *)
Inductive outcome : Type :=
  | Built (st : pp_state)
  | Fatal (msg : string).

Definition initial : pp_state := mk_state [] [].

Definition emit (d : decl) (st : pp_state) : pp_state :=
  mk_state (emitted st ++ [d]) (tested st).

Definition test (c : cond) (st : pp_state) : pp_state :=
  mk_state (emitted st) (tested st ++ [c]).

Section Run.

Variable env : string -> bool.

Fixpoint eval_cond (c : cond) : bool :=
  match c with
  | Defined m => env m
  | Or a b => eval_cond a || eval_cond b
  end.

(** One directive.  Only the selected branch of a conditional is run;
    the other branch is skipped with everything nested in it. *)
Fixpoint run (d : directive) (st : pp_state) : outcome :=
  match d with
  | HashInclude form name => Built (emit (Header form name) st)
  | Typedef tag body name pname => Built (emit (TypeDecl tag body name pname) st)
  | HashIf c thn els =>
      (fix run_branch (ds : list directive) (st : pp_state) : outcome :=
         match ds with
         | [] => Built st
         | d' :: rest =>
             match run d' st with
             | Built st' => run_branch rest st'
             | Fatal msg => Fatal msg
             end
         end) (if eval_cond c then thn else els) (test c st)
  | HashError msg => Fatal msg
  | StaticAssert a b msg =>
      if sizeof a =? sizeof b then Built st else Fatal msg
  end.

Fixpoint run_all (ds : list directive) (st : pp_state) : outcome :=
  match ds with
  | [] => Built st
  | d :: rest =>
      match run d st with
      | Built st' => run_all rest st'
      | Fatal msg => Fatal msg
      end
  end.

End Run.

(** The configuration of a build: the macros defined for it. *)
Definition defined (flags : list string) (m : string) : bool :=
  existsb (String.eqb m) flags.

Definition preprocess (tu : list directive) (flags : list string) : outcome :=
  run_all (defined flags) tu initial.

(** Every declaration a header can emit, at any nesting depth, in source
    order; and the number of build-stopping checks it holds. *)
Fixpoint leaves (d : directive) : list decl :=
  match d with
  | HashInclude form name => [Header form name]
  | Typedef tag body name pname => [TypeDecl tag body name pname]
  | HashIf _ thn els =>
      let go :=
        fix go (ds : list directive) : list decl :=
          match ds with
          | [] => []
          | d' :: rest => leaves d' ++ go rest
          end in
      go thn ++ go els
  | HashError _ => []
  | StaticAssert _ _ _ => []
  end.

Definition all_leaves (ds : list directive) : list decl :=
  flat_map leaves ds.

Fixpoint checks (d : directive) : nat :=
  match d with
  | HashInclude _ _ => 0
  | Typedef _ _ _ _ => 0
  | HashIf _ thn els =>
      let go :=
        fix go (ds : list directive) : nat :=
          match ds with
          | [] => 0
          | d' :: rest => checks d' + go rest
          end%nat in
      (go thn + go els)%nat
  | HashError _ => 1
  | StaticAssert _ _ _ => 1
  end.

Definition all_checks (ds : list directive) : nat :=
  fold_right Nat.add 0%nat (map checks ds).

(** The macros a header's conditions name. *)
Fixpoint cond_macros (c : cond) : list string :=
  match c with
  | Defined m => [m]
  | Or a b => cond_macros a ++ cond_macros b
  end.

Fixpoint macros (d : directive) : list string :=
  match d with
  | HashIf c thn els =>
      let go :=
        fix go (ds : list directive) : list string :=
          match ds with
          | [] => []
          | d' :: rest => macros d' ++ go rest
          end in
      cond_macros c ++ go thn ++ go els
  | _ => []
  end.

Definition all_macros (ds : list directive) : list string :=
  flat_map macros ds.

(** The declarations of a directive list that sit under no conditional of
    that list. *)
Fixpoint unconditional (ds : list directive) : list decl :=
  match ds with
  | [] => []
  | HashInclude form name :: rest => Header form name :: unconditional rest
  | Typedef tag body name pname :: rest =>
      TypeDecl tag body name pname :: unconditional rest
  | _ :: rest => unconditional rest
  end.

(** The name a declaration introduces: the header's name, or the
    typedef's name. *)
Definition decl_name (d : decl) : string :=
  match d with
  | Header _ name => name
  | TypeDecl _ _ name _ => name
  end.

Definition is_type_decl (d : decl) : bool :=
  match d with
  | Header _ _ => false
  | TypeDecl _ _ _ _ => true
  end.

Definition names (ds : list decl) : list string := map decl_name ds.

Definition mem (s : string) (l : list string) : bool :=
  existsb (String.eqb s) l.

End Cpp.

(** ** The two headers *)

Import Layout Cpp.

(** [typedef union _KGDTENTRY64 { ... } KGDTENTRY64, *PKGDTENTRY64;] *)
Definition KGDTENTRY64_Bytes : ctype :=
  Struct
    [ Member "BaseMiddle" (Scalar unsigned_char);
      Member "Flags1" (Scalar unsigned_char);
      Member "Flags2" (Scalar unsigned_char);
      Member "BaseHigh" (Scalar unsigned_char) ].

Definition KGDTENTRY64_Bits : ctype :=
  Struct
    [ BitField "BaseMiddle" unsigned_long 8;
      BitField "Type" unsigned_long 5;
      BitField "Dpl" unsigned_long 2;
      BitField "Present" unsigned_long 1;
      BitField "LimitHigh" unsigned_long 4;
      BitField "System" unsigned_long 1;
      BitField "LongMode" unsigned_long 1;
      BitField "DefaultBig" unsigned_long 1;
      BitField "Granularity" unsigned_long 1;
      BitField "BaseHigh" unsigned_long 8 ].

Definition KGDTENTRY64_middle : ctype :=
  Union
    [ Member "Bytes" KGDTENTRY64_Bytes;
      Member "Bits" KGDTENTRY64_Bits ].

Definition KGDTENTRY64_fields : ctype :=
  Struct
    [ Member "LimitLow" (Scalar unsigned_short);
      Member "BaseLow" (Scalar unsigned_short);
      Anonymous KGDTENTRY64_middle;
      Member "BaseUpper" (Scalar unsigned_long);
      Member "MustBeZero" (Scalar unsigned_long) ].

Definition KGDTENTRY64 : ctype :=
  Union
    [ Anonymous KGDTENTRY64_fields;
      Member "Alignment" (Scalar unsigned_int64) ].

(** [typedef union _KIDTENTRY64 { ... } KIDTENTRY64, *PKIDTENTRY64;] *)
Definition KIDTENTRY64_fields : ctype :=
  Struct
    [ Member "OffsetLow" (Scalar unsigned_short);
      Member "Selector" (Scalar unsigned_short);
      BitField "IstIndex" unsigned_short 3;
      BitField "Reserved0" unsigned_short 5;
      BitField "Type" unsigned_short 5;
      BitField "Dpl" unsigned_short 2;
      BitField "Present" unsigned_short 1;
      Member "OffsetMiddle" (Scalar unsigned_short);
      Member "OffsetHigh" (Scalar unsigned_long);
      Member "Reserved1" (Scalar unsigned_long) ].

Definition KIDTENTRY64 : ctype :=
  Union
    [ Anonymous KIDTENTRY64_fields;
      Member "Alignment" (Scalar unsigned_int64) ].

Definition KGDTENTRY64_decl : decl :=
  TypeDecl "_KGDTENTRY64" KGDTENTRY64 "KGDTENTRY64" "PKGDTENTRY64".

Definition KIDTENTRY64_decl : decl :=
  TypeDecl "_KIDTENTRY64" KIDTENTRY64 "KIDTENTRY64" "PKIDTENTRY64".

(** The [#ifdef _KERNEL_MODE] block of the main header. *)
Definition kernel_mode_block : list directive :=
  [ HashInclude Quoted "ntintsafe.h";
    HashInclude Quoted "ntstrsafe.h";
    HashInclude Quoted "pepfx.h";
    HashInclude Quoted "ntddstor.h";
    HashInclude Quoted "ude/1.0/UdeCx.h" ].

(** The [#else // !defined(UMDF_VERSION_MAJOR)] branch of the main header;
    the includes the source comments out are not part of it. *)
Definition non_umdf_branch : list directive :=
  [ HashInclude Quoted "ntifs.h";
    HashInclude Quoted "ntddk.h";
    (* HID *)
    HashInclude Quoted "hidclass.h";
    HashInclude Quoted "hidport.h";
    HashInclude Quoted "hidsdi.h";
    HashInclude Quoted "kbdmou.h";
    HashInclude Quoted "ntdd8042.h";
    HashInclude Quoted "vhf.h";
    (* USB *)
    HashInclude Quoted "usbspec.h";
    HashInclude Quoted "usb.h";
    HashInclude Quoted "usbbusif.h";
    HashInclude Quoted "usbioctl.h";
    HashInclude Quoted "usbdlib.h";
    HashInclude Quoted "usbfnbase.h";
    HashInclude Quoted "usbfnattach.h";
    HashInclude Quoted "usbfnioctl.h";
    HashInclude Quoted "wdf.h";
    HashInclude Quoted "wdfusb.h";
    HashIf (Defined "_KERNEL_MODE") kernel_mode_block [];
    (* SPB *)
    HashInclude Quoted "spb.h";
    HashInclude Quoted "spb/1.1/spbcx.h";
    HashInclude Quoted "reshub.h";
    HashInclude Quoted "pwmutil.h";
    (* PARALLEL PORTS *)
    HashInclude Quoted "gpio.h";
    HashInclude Quoted "gpioclx.h";
    HashInclude Quoted "ntddpar.h";
    HashInclude Quoted "ntddser.h";
    HashInclude Quoted "parallel.h";
    Typedef "_KGDTENTRY64" KGDTENTRY64 "KGDTENTRY64" "PKGDTENTRY64";
    Typedef "_KIDTENTRY64" KIDTENTRY64 "KIDTENTRY64" "PKIDTENTRY64" ].

(** The main input header. *)
Definition part_000 : list directive :=
  [ HashIf (Defined "UMDF_VERSION_MAJOR")
      [ HashInclude Angled "windows.h" ]
      non_umdf_branch;
    HashIf (Or (Defined "KMDF_VERSION_MAJOR") (Defined "UMDF_VERSION_MAJOR"))
      [ HashInclude Angled "wdf.h" ]
      [];
    (* Tracelogging *)
    HashInclude Quoted "TraceLoggingProvider.h" ].

(** [crates/wdk-sys/src/usb-input.h]. *)
Definition usb_input : list directive :=
  [ HashInclude Quoted "ntddk.h";
    HashInclude Quoted "usbspec.h";
    HashInclude Quoted "usb.h";
    HashInclude Quoted "usbbusif.h";
    HashInclude Quoted "usbioctl.h";
    HashInclude Quoted "usbdlib.h";
    HashInclude Quoted "usbfnbase.h";
    HashInclude Quoted "usbfnattach.h";
    HashInclude Quoted "usbfnioctl.h";
    HashInclude Quoted "wdf.h";
    HashInclude Quoted "wdfusb.h";
    HashIf (Defined "_KERNEL_MODE")
      [ HashInclude Quoted "ude/1.0/UdeCx.h" ]
      [] ].

(** The hand-derived layout types of a header: the bodies of its
    typedefs. *)
Definition type_body (d : decl) : option ctype :=
  match d with
  | Header _ _ => None
  | TypeDecl _ body _ _ => Some body
  end.

Fixpoint bodies (ds : list decl) : list ctype :=
  match ds with
  | [] => []
  | d :: rest =>
      match type_body d with
      | Some t => t :: bodies rest
      | None => bodies rest
      end
  end.

Definition layout_types (tu : list directive) : list ctype :=
  bodies (all_leaves tu).

(** Modelled from the spec: the name references between the external
    headers, whose contents are not among the sources.  The core USB
    headers [usbspec.h] and [usb.h] are referenced by the USB bus
    interface, ioctl, library and function-class headers and by
    [wdfusb.h]; [wdfusb.h] also references the framework core [wdf.h]. *)
Definition header_references : list (string * list string) :=
  [ ("usbbusif.h", ["usbspec.h"; "usb.h"]);
    ("usbioctl.h", ["usbspec.h"; "usb.h"]);
    ("usbdlib.h", ["usbspec.h"; "usb.h"]);
    ("usbfnbase.h", ["usbspec.h"; "usb.h"]);
    ("usbfnattach.h", ["usbspec.h"; "usb.h"]);
    ("usbfnioctl.h", ["usbspec.h"; "usb.h"]);
    ("wdfusb.h", ["usbspec.h"; "usb.h"; "wdf.h"]) ].

Fixpoint lookup (name : string) (table : list (string * list string))
  : list string :=
  match table with
  | [] => []
  | (n, refs) :: rest =>
      if String.eqb n name then refs else lookup name rest
  end.

(** The two typedefs name integer types only. *)
Definition references (d : decl) : list string :=
  match d with
  | Header _ name => lookup name header_references
  | TypeDecl _ _ _ _ => []
  end.

(** Every name a declaration references is introduced strictly earlier
    in the list. *)
Definition dependency_ordered (ds : list decl) : Prop :=
  forall (i : nat) (d : decl) (h : string),
    nth_error ds i = Some d ->
    In h (references d) ->
    exists (j : nat) (d' : decl),
      (j < i)%nat /\ nth_error ds j = Some d' /\ decl_name d' = h.

(** The same as a check, with the names introduced so far. *)
Fixpoint ordered_after (seen : list string) (ds : list decl) : bool :=
  match ds with
  | [] => true
  | d :: rest =>
      forallb (fun h => mem h seen) (references d)
      && ordered_after (decl_name d :: seen) rest
  end.

(** Two configurations define the same macros. *)
Definition same_flags (f1 f2 : list string) : Prop :=
  forall m : string, defined f1 m = defined f2 m.

(** The configuration that defines, of the three macros the headers test,
    exactly the chosen ones. *)
Definition config (umdf kmdf kernel : bool) : list string :=
  (if umdf then ["UMDF_VERSION_MAJOR"] else [])
  ++ (if kmdf then ["KMDF_VERSION_MAJOR"] else [])
  ++ (if kernel then ["_KERNEL_MODE"] else []).

Definition config_of (flags : list string) : list string :=
  config (defined flags "UMDF_VERSION_MAJOR")
         (defined flags "KMDF_VERSION_MAJOR")
         (defined flags "_KERNEL_MODE").

(** What a build with [UMDF_VERSION_MAJOR] defined emits and tests. *)
Definition umdf_state : pp_state :=
  mk_state
    [ Header Angled "windows.h";
      Header Angled "wdf.h";
      Header Quoted "TraceLoggingProvider.h" ]
    [ Defined "UMDF_VERSION_MAJOR";
      Or (Defined "KMDF_VERSION_MAJOR") (Defined "UMDF_VERSION_MAJOR") ].

(** ** Field access *)

(** An object is the little-endian integer of its bytes: bit [i] of the
    integer is bit [i mod 8] of byte [i / 8], as on x64.  A field placed at
    bit [p_offset] with [p_width] bits is read by shifting and masking and
    written by clearing its bits and or-ing the new value in. *)
Definition read_field (storage : Z) (p : placed) : Z :=
  Z.land (Z.shiftr storage (p_offset p)) (Z.ones (p_width p)).

Definition write_field (storage : Z) (p : placed) (x : Z) : Z :=
  Z.lor
    (Z.land storage (Z.lnot (Z.shiftl (Z.ones (p_width p)) (p_offset p))))
    (Z.shiftl (Z.land x (Z.ones (p_width p))) (p_offset p)).

(** The integer fields of a type with their place in the whole object.
    Members of an anonymous struct or union are members of the enclosing
    record; a field of a named member [m] is called [m.field]. *)
Fixpoint scalar_fields (t : ctype) (base : Z) (prefix : string)
  : list placed :=
  match t with
  | Scalar _ => []
  | Struct fs =>
      (fix go (fs : list field) (ps : list placed) : list placed :=
         match fs, ps with
         | f :: fs', p :: ps' =>
             field_scalars f p base prefix ++ go fs' ps'
         | _, _ => []
         end) fs (fields_of t)
  | Union fs =>
      (fix go (fs : list field) (ps : list placed) : list placed :=
         match fs, ps with
         | f :: fs', p :: ps' =>
             field_scalars f p base prefix ++ go fs' ps'
         | _, _ => []
         end) fs (fields_of t)
  end
with field_scalars (f : field) (p : placed) (base : Z) (prefix : string)
  : list placed :=
  match f with
  | BitField name _ _ =>
      [mk_placed (String.append prefix name) (base + p_offset p) (p_width p)]
  | Member name (Scalar _) =>
      [mk_placed (String.append prefix name) (base + p_offset p) (p_width p)]
  | Member name t =>
      scalar_fields t (base + p_offset p)
        (String.append prefix (String.append name "."))
  | Anonymous t => scalar_fields t (base + p_offset p) prefix
  end.

Fixpoint find_field (name : string) (ps : list placed) : option placed :=
  match ps with
  | [] => None
  | p :: rest =>
      if String.eqb (p_name p) name then Some p else find_field name rest
  end.

(** Where the field called [name] lies in an object of type [t], and its
    value in the object [storage]. *)
Definition locate (t : ctype) (name : string) : option placed :=
  find_field name (scalar_fields t 0 "").

Definition field_value (t : ctype) (name : string) (storage : Z)
  : option Z :=
  option_map (read_field storage) (locate t name).

Definition set_field (t : ctype) (name : string) (x : Z) (storage : Z)
  : option Z :=
  option_map (fun p => write_field storage p x) (locate t name).

(** Two placed fields share no bit. *)
Definition apart (p q : placed) : bool :=
  (p_offset p + p_width p <=? p_offset q)
  || (p_offset q + p_width q <=? p_offset p).

Definition well_placed (p : placed) : bool :=
  (0 <=? p_offset p) && (0 <=? p_width p).

(** Every field is well placed and fields of different names share no
    bit. *)
Definition separate (ps : list placed) : bool :=
  forallb well_placed ps
  && forallb
       (fun p =>
          forallb (fun q => String.eqb (p_name p) (p_name q) || apart p q) ps)
       ps.

(** The integer fields of [t] without those of the member whose qualified
    names start with [skip]: the fields seen when the storage of a nested
    union is accessed through its other member. *)
Definition view_fields (skip : string) (t : ctype) : list placed :=
  filter (fun p => negb (String.prefix skip (p_name p)))
         (scalar_fields t 0 "").

(** The value of consecutive fields read as one integer whose bit 0 is
    bit [from] of the object. *)
Fixpoint packed (storage : Z) (from : Z) (ps : list placed) : Z :=
  match ps with
  | [] => 0
  | p :: rest =>
      2 ^ (p_offset p - from) * read_field storage p
      + packed storage from rest
  end.

(** ** Lists of declarations *)

(** [l] is [m] with some elements left out. *)
Inductive subsequence {A : Type} : list A -> list A -> Prop :=
  | sub_nil : subsequence [] []
  | sub_skip (x : A) (l m : list A) :
      subsequence l m -> subsequence l (x :: m)
  | sub_keep (x : A) (l m : list A) :
      subsequence l m -> subsequence (x :: l) (x :: m).

(** ** Properties of preprocessing *)

(** *** The layout rules *)

Lemma align_to_ge (x a : Z) : 0 < a -> x <= align_to x a.
Proof.
  intros Ha. unfold align_to.
  pose proof (Z.div_mod (x + a - 1) a ltac:(lia)) as Hdm.
  pose proof (Z.mod_pos_bound (x + a - 1) a Ha) as Hr.
  nia.
Qed.

Lemma union_fold_align (fs : list finfo) :
  forall l, l_align l <= l_align (fold_left place_union_field fs l).
Proof.
  induction fs as [|f fs IH]; intros l; simpl; [lia |].
  etransitivity; [| apply IH]. simpl. lia.
Qed.

Lemma union_fold_size (fs : list finfo) :
  forall l, l_size l <= l_size (fold_left place_union_field fs l).
Proof.
  induction fs as [|f fs IH]; intros l; simpl; [lia |].
  etransitivity; [| apply IH]. simpl. lia.
Qed.

Lemma union_fold_covers (fs : list finfo) :
  forall l f, In f fs ->
    f_size f <= l_size (fold_left place_union_field fs l).
Proof.
  induction fs as [|g fs IH]; intros l f Hin; [contradiction |].
  simpl. destruct Hin as [-> | Hin].
  - etransitivity; [| apply union_fold_size]. simpl. lia.
  - now apply IH.
Qed.

(** A union is at least as wide as each of its members. *)
Lemma union_layout_covers (fs : list finfo) (f : finfo) :
  In f fs -> f_size f <= l_size (union_layout fs).
Proof.
  intros Hin. unfold union_layout, close_layout. simpl.
  etransitivity; [apply (union_fold_covers fs empty_layout f Hin) |].
  apply align_to_ge.
  pose proof (union_fold_align fs empty_layout) as H. simpl in H. lia.
Qed.

Lemma sizeof_union_member (fs : list field) (f : field) :
  In f fs -> f_size (field_info f) <= sizeof (Union fs).
Proof.
  intros Hin. unfold sizeof. simpl.
  apply union_layout_covers. now apply in_map.
Qed.

(** *** Preprocessing *)

Section DirectiveInduction.

Variable P : directive -> Prop.
Hypothesis P_include : forall form name, P (HashInclude form name).
Hypothesis P_typedef : forall tag body name pname,
  P (Typedef tag body name pname).
Hypothesis P_if : forall c thn els,
  Forall P thn -> Forall P els -> P (HashIf c thn els).
Hypothesis P_error : forall msg, P (HashError msg).
Hypothesis P_assert : forall a b msg, P (StaticAssert a b msg).

Lemma directive_nested_ind : forall d : directive, P d.
Proof.
  exact
    (fix self (d : directive) : P d :=
       match d with
       | HashInclude form name => P_include form name
       | Typedef tag body name pname => P_typedef tag body name pname
       | HashIf c thn els =>
           let all :=
             fix all (ds : list directive) : Forall P ds :=
               match ds with
               | [] => Forall_nil P
               | d' :: rest => Forall_cons d' (self d') (all rest)
               end in
           P_if c thn els (all thn) (all els)
       | HashError msg => P_error msg
       | StaticAssert a b msg => P_assert a b msg
       end).
Qed.

End DirectiveInduction.

Lemma run_if (env : string -> bool) (c : cond) (thn els : list directive)
    (st : pp_state) :
  run env (HashIf c thn els) st
  = run_all env (if eval_cond env c then thn else els) (test c st).
Proof.
  simpl. generalize (test c st).
  induction (if eval_cond env c then thn else els) as [|d ds IH];
    intros s; simpl; [reflexivity|].
  destruct (run env d s); [apply IH | reflexivity].
Qed.

Lemma leaves_if (c : cond) (thn els : list directive) :
  leaves (HashIf c thn els) = all_leaves thn ++ all_leaves els.
Proof.
  reflexivity.
Qed.

Lemma macros_if (c : cond) (thn els : list directive) :
  macros (HashIf c thn els)
  = cond_macros c ++ all_macros thn ++ all_macros els.
Proof.
  reflexivity.
Qed.

Lemma checks_if (c : cond) (thn els : list directive) :
  checks (HashIf c thn els) = (all_checks thn + all_checks els)%nat.
Proof.
  unfold all_checks. simpl. f_equal.
  - induction thn as [|d ds IH]; simpl; [reflexivity | now rewrite IH].
  - induction els as [|d ds IH]; simpl; [reflexivity | now rewrite IH].
Qed.

Lemma eval_cond_ext (env1 env2 : string -> bool) (c : cond) :
  (forall m, In m (cond_macros c) -> env1 m = env2 m) ->
  eval_cond env1 c = eval_cond env2 c.
Proof.
  induction c as [m|a IHa b IHb]; simpl; intros H.
  - apply H. now left.
  - rewrite IHa, IHb; [reflexivity| |]; intros m Hm; apply H, in_or_app; auto.
Qed.

(** Preprocessing looks at the configuration only through the macros the
    header's conditions name. *)
Lemma run_all_ext (env1 env2 : string -> bool) (tu : list directive) :
  (forall m, In m (all_macros tu) -> env1 m = env2 m) ->
  forall st, run_all env1 tu st = run_all env2 tu st.
Proof.
  assert (step : forall ds,
    Forall (fun d => (forall m, In m (macros d) -> env1 m = env2 m) ->
                     forall st, run env1 d st = run env2 d st) ds ->
    (forall m, In m (all_macros ds) -> env1 m = env2 m) ->
    forall st, run_all env1 ds st = run_all env2 ds st).
  { induction 1 as [|d ds Hd _ IH]; intros Hm st; simpl; [reflexivity|].
    rewrite Hd by (intros m Hin; apply Hm; simpl; apply in_or_app; auto).
    destruct (run env2 d st); [|reflexivity].
    apply IH. intros m Hin. apply Hm. simpl. apply in_or_app; auto. }
  intros H. apply step; [|exact H]. clear H.
  apply Forall_forall. intros d _. revert d.
  apply (directive_nested_ind
    (fun d => (forall m, In m (macros d) -> env1 m = env2 m) ->
              forall st, run env1 d st = run env2 d st));
    try (intros; reflexivity).
  intros c thn els Hthn Hels Hm st.
  rewrite macros_if in Hm. rewrite !run_if.
  rewrite (eval_cond_ext env1 env2 c)
    by (intros m Hin; apply Hm, in_or_app; auto).
  destruct (eval_cond env2 c); apply step; auto;
    intros m Hin; apply Hm, in_or_app; right; apply in_or_app; auto.
Qed.

(** A header without [#error] and [static_assert] builds under every
    configuration. *)
Lemma run_all_without_checks (env : string -> bool) (tu : list directive) :
  all_checks tu = 0%nat ->
  forall st, exists st', run_all env tu st = Built st'.
Proof.
  assert (step : forall ds,
    Forall (fun d => checks d = 0%nat ->
                     forall st, exists st', run env d st = Built st') ds ->
    all_checks ds = 0%nat ->
    forall st, exists st', run_all env ds st = Built st').
  { induction 1 as [|d ds Hd _ IH]; intros Hz st; simpl; [eauto|].
    unfold all_checks in Hz. simpl in Hz.
    destruct (Hd ltac:(lia) st) as [st' ->].
    apply IH. unfold all_checks. lia. }
  intros H. apply step; [|exact H]. clear H.
  apply Forall_forall. intros d _. revert d.
  apply (directive_nested_ind
    (fun d => checks d = 0%nat ->
              forall st, exists st', run env d st = Built st'));
    try (simpl; intros; eauto; discriminate).
  intros c thn els Hthn Hels Hz st.
  rewrite checks_if in Hz. rewrite run_if.
  destruct (eval_cond env c); apply step; auto; lia.
Qed.

Lemma ordered_after_sound (ds : list decl) :
  forall seen, ordered_after seen ds = true ->
  forall i d h, nth_error ds i = Some d -> In h (references d) ->
    mem h seen = true \/
    exists j d', (j < i)%nat /\ nth_error ds j = Some d' /\ decl_name d' = h.
Proof.
  induction ds as [|a ds IH]; intros seen Hok i d h Hnth Hin.
  - destruct i; discriminate.
  - simpl in Hok. apply andb_true_iff in Hok as [Hhere Hrest].
    destruct i as [|i]; simpl in Hnth.
    + inversion Hnth; subst a. left.
      rewrite forallb_forall in Hhere. now apply Hhere.
    + destruct (IH _ Hrest i d h Hnth Hin) as [Hseen | (j & d' & Hlt & Hj & Hn)].
      * unfold mem in Hseen. simpl in Hseen.
        apply orb_true_iff in Hseen as [Heq | Hseen]; [|now left].
        right. exists 0%nat, a. apply String.eqb_eq in Heq.
        split; [lia | split; [reflexivity | now symmetry]].
      * right. exists (S j), d'. split; [lia | split; [exact Hj | exact Hn]].
Qed.

Lemma ordered_after_nil (ds : list decl) :
  ordered_after [] ds = true -> dependency_ordered ds.
Proof.
  intros Hok i d h Hnth Hin.
  destruct (ordered_after_sound ds [] Hok i d h Hnth Hin) as [Hseen | H];
    [discriminate | exact H].
Qed.


Lemma config_of_agrees (flags : list string) (m : string) :
  In m ["UMDF_VERSION_MAJOR"; "KMDF_VERSION_MAJOR"; "_KERNEL_MODE"] ->
  defined flags m = defined (config_of flags) m.
Proof.
  unfold config_of.
  intros [<- | [<- | [<- | []]]];
    destruct (defined flags "UMDF_VERSION_MAJOR"),
             (defined flags "KMDF_VERSION_MAJOR"),
             (defined flags "_KERNEL_MODE"); reflexivity.
Qed.

(** Both headers test no other macro, so a build is decided by those
    three. *)
Lemma part_000_by_config (flags : list string) :
  preprocess part_000 flags = preprocess part_000 (config_of flags).
Proof.
  unfold preprocess. apply run_all_ext. intros m Hm.
  apply config_of_agrees. cbv in Hm. cbv. tauto.
Qed.

Lemma usb_input_by_config (flags : list string) :
  preprocess usb_input flags = preprocess usb_input (config_of flags).
Proof.
  unfold preprocess. apply run_all_ext. intros m Hm.
  apply config_of_agrees. cbv in Hm. cbv. tauto.
Qed.

(** Case analysis of a build on the three macros. *)
Ltac by_config flags :=
  rewrite ?(part_000_by_config flags), ?(usb_input_by_config flags);
  unfold config_of;
  destruct (defined flags "UMDF_VERSION_MAJOR") eqn:?,
           (defined flags "KMDF_VERSION_MAJOR") eqn:?,
           (defined flags "_KERNEL_MODE") eqn:?;
  try discriminate.

Ltac pick := repeat (first [left; reflexivity | right]).

(** ** The descriptor layout types *)

Lemma layout_types_part_000 :
  layout_types part_000 = [KGDTENTRY64; KIDTENTRY64].
Proof. reflexivity. Qed.

(** C1, as the spec states it, fails: [KGDTENTRY64] is a layout type of the
    main header whose structured view is 16 bytes wide while its integer
    alias [Alignment] is 8 bytes wide. *)
Lemma KGDTENTRY64_views_differ :
  In KGDTENTRY64 (layout_types part_000)
  /\ structured_view KGDTENTRY64 = Some KGDTENTRY64_fields
  /\ raw_integer_view KGDTENTRY64 = Some (Scalar unsigned_int64)
  /\ sizeof KGDTENTRY64_fields = 16
  /\ sizeof (Scalar unsigned_int64) = 8
  /\ sizeof KGDTENTRY64_fields <> sizeof (Scalar unsigned_int64).
Proof.
  split; [now left |].
  repeat (split; [reflexivity |]).
  intros H. vm_compute in H. discriminate H.
Qed.

(** C1, amended: every layout type of the main header has a structured
    view whose fields follow each other without a gap over 128 bits
    (16 bytes) and an integer alias of 8 bytes; the union itself is
    16 bytes wide and 8-byte aligned. *)
Theorem layout_type_widths (t : ctype) :
  In t (layout_types part_000) ->
  exists s r,
    structured_view t = Some s
    /\ raw_integer_view t = Some r
    /\ sum_declared_bits s = 128
    /\ contiguous_from 0 (fields_of s) = Some 128
    /\ sizeof s = 16
    /\ r = Scalar unsigned_int64
    /\ sizeof r = 8
    /\ sizeof t = 16
    /\ alignof t = 8.
Proof.
  rewrite layout_types_part_000.
  intros [<- | [<- | []]].
  - exists KGDTENTRY64_fields, (Scalar unsigned_int64).
    repeat split; reflexivity.
  - exists KIDTENTRY64_fields, (Scalar unsigned_int64).
    repeat split; reflexivity.
Qed.

Lemma layout_type_widths_witness :
  In KIDTENTRY64 (layout_types part_000)
  /\ exists s r,
       structured_view KIDTENTRY64 = Some s
       /\ raw_integer_view KIDTENTRY64 = Some r
       /\ sum_declared_bits s = 128
       /\ contiguous_from 0 (fields_of s) = Some 128
       /\ sizeof s = 16
       /\ r = Scalar unsigned_int64
       /\ sizeof r = 8
       /\ sizeof KIDTENTRY64 = 16
       /\ alignof KIDTENTRY64 = 8.
Proof.
  assert (H : In KIDTENTRY64 (layout_types part_000))
    by (simpl; right; left; reflexivity).
  split; [exact H | exact (layout_type_widths KIDTENTRY64 H)].
Defined.

(** C10: inside [KGDTENTRY64] the middle storage is a union of [Bytes]
    (four 8-bit fields) and [Bits] (ten bit-fields of widths
    8,5,2,1,4,1,1,1,1,8).  Each declares 32 bits, is laid out without a gap
    from bit 0 to bit 32, is 4 bytes wide, and both start at offset 0 of a
    4-byte union. *)
Theorem KGDTENTRY64_middle_views :
  members KGDTENTRY64_middle
    = [Member "Bytes" KGDTENTRY64_Bytes; Member "Bits" KGDTENTRY64_Bits]
  /\ map declared_bits (members KGDTENTRY64_Bytes) = [8; 8; 8; 8]
  /\ map declared_bits (members KGDTENTRY64_Bits)
       = [8; 5; 2; 1; 4; 1; 1; 1; 1; 8]
  /\ sum_declared_bits KGDTENTRY64_Bytes = 32
  /\ sum_declared_bits KGDTENTRY64_Bits = 32
  /\ contiguous_from 0 (fields_of KGDTENTRY64_Bytes) = Some 32
  /\ contiguous_from 0 (fields_of KGDTENTRY64_Bits) = Some 32
  /\ sizeof KGDTENTRY64_Bytes = 4
  /\ sizeof KGDTENTRY64_Bits = 4
  /\ sizeof KGDTENTRY64_middle = 4
  /\ fields_of KGDTENTRY64_middle
       = [mk_placed "Bytes" 0 32; mk_placed "Bits" 0 32].
Proof.
  repeat split; reflexivity.
Qed.

(** ** Builds of the main header *)


Lemma umdf_build (flags : list string) :
  defined flags "UMDF_VERSION_MAJOR" = true ->
  preprocess part_000 flags = Built umdf_state.
Proof.
  intros H. by_config flags; reflexivity.
Qed.

Ltac absurd_member H :=
  cbv - [KGDTENTRY64 KIDTENTRY64] in H; repeat (destruct H as [H | H]; [discriminate |]); contradiction.

(** [d] is one of the declarations listed in [Hd]: none of them is in the
    output ([excluded]), or each of them is ([included]). *)
Ltac excluded Hd Hin :=
  cbv - [KGDTENTRY64 KIDTENTRY64] in Hd;
  repeat (destruct Hd as [<- | Hd]; [absurd_member Hin |]);
  contradiction.

Ltac included Hd :=
  cbv - [KGDTENTRY64 KIDTENTRY64] in Hd;
  repeat (destruct Hd as [<- | Hd]; [cbv - [KGDTENTRY64 KIDTENTRY64]; pick |]);
  contradiction.

(** C2, as the spec states it, fails: the fields of [KIDTENTRY64] sum to
    128 bits, its integer alias is 64 bits wide, and a kernel-mode build
    succeeds and emits the declaration. *)
Lemma KIDTENTRY64_mismatch_builds :
  structured_view KIDTENTRY64 = Some KIDTENTRY64_fields
  /\ sum_declared_bits KIDTENTRY64_fields = 128
  /\ raw_integer_view KIDTENTRY64 = Some (Scalar unsigned_int64)
  /\ width (Scalar unsigned_int64) = 64
  /\ exists st,
       preprocess part_000 ["_KERNEL_MODE"] = Built st
       /\ In KIDTENTRY64_decl (emitted st).
Proof.
  repeat split; try reflexivity.
  eexists. split; [reflexivity | cbv - [KGDTENTRY64 KIDTENTRY64]; pick].
Qed.

(** C2, amended: in every configuration without [UMDF_VERSION_MAJOR] the
    build succeeds and emits [KIDTENTRY64], whose fields sum to 128 bits
    while its integer alias is 64 bits wide; no width mismatch is
    reported. *)
Theorem KIDTENTRY64_declared_with_mismatch (flags : list string) :
  defined flags "UMDF_VERSION_MAJOR" = false ->
  exists st,
    preprocess part_000 flags = Built st
    /\ In KIDTENTRY64_decl (emitted st)
    /\ structured_view KIDTENTRY64 = Some KIDTENTRY64_fields
    /\ width KIDTENTRY64_fields = 128
    /\ raw_integer_view KIDTENTRY64 = Some (Scalar unsigned_int64)
    /\ width (Scalar unsigned_int64) = 64
    /\ views_agree KIDTENTRY64 = false.
Proof.
  intros H. by_config flags;
    (eexists; split; [reflexivity |];
     split; [cbv - [KGDTENTRY64 KIDTENTRY64]; pick | repeat split; reflexivity]).
Qed.

Lemma KIDTENTRY64_declared_with_mismatch_witness :
  defined ["KMDF_VERSION_MAJOR"; "_KERNEL_MODE"] "UMDF_VERSION_MAJOR" = false
  /\ exists st,
       preprocess part_000 ["KMDF_VERSION_MAJOR"; "_KERNEL_MODE"] = Built st
       /\ In KIDTENTRY64_decl (emitted st)
       /\ structured_view KIDTENTRY64 = Some KIDTENTRY64_fields
       /\ width KIDTENTRY64_fields = 128
       /\ raw_integer_view KIDTENTRY64 = Some (Scalar unsigned_int64)
       /\ width (Scalar unsigned_int64) = 64
       /\ views_agree KIDTENTRY64 = false.
Proof.
  split; [reflexivity |].
  apply (KIDTENTRY64_declared_with_mismatch
           ["KMDF_VERSION_MAJOR"; "_KERNEL_MODE"]).
  reflexivity.
Defined.

(** C3, as the spec states it, fails: the main header declares the two
    layout types and holds no build-stopping check at any depth; the views
    of [KGDTENTRY64] disagree in width and the build with no macro defined
    still emits the type. *)
Lemma no_width_assertion :
  layout_types part_000 = [KGDTENTRY64; KIDTENTRY64]
  /\ all_checks part_000 = 0%nat
  /\ views_agree KGDTENTRY64 = false
  /\ exists st,
       preprocess part_000 [] = Built st
       /\ In KGDTENTRY64_decl (emitted st).
Proof.
  repeat split; try reflexivity.
  eexists. split; [reflexivity | cbv - [KGDTENTRY64 KIDTENTRY64]; pick].
Qed.

(** C3, amended: neither header holds an assertion or an [#error]; every
    configuration of either header builds, although the two views of both
    layout types differ in width. *)
Theorem headers_hold_no_checks :
  all_checks part_000 = 0%nat
  /\ all_checks usb_input = 0%nat
  /\ map views_agree (layout_types part_000) = [false; false]
  /\ forall flags,
       (exists st, preprocess part_000 flags = Built st)
       /\ (exists st, preprocess usb_input flags = Built st).
Proof.
  repeat split; try reflexivity;
    unfold preprocess; apply run_all_without_checks; reflexivity.
Qed.

(** C4, as the spec states it, fails: with [UMDF_VERSION_MAJOR] and
    [_KERNEL_MODE] both defined the build succeeds with the user-mode
    branch. *)
Lemma both_modes_build :
  defined ["UMDF_VERSION_MAJOR"; "_KERNEL_MODE"] "UMDF_VERSION_MAJOR" = true
  /\ defined ["UMDF_VERSION_MAJOR"; "_KERNEL_MODE"] "_KERNEL_MODE" = true
  /\ preprocess part_000 ["UMDF_VERSION_MAJOR"; "_KERNEL_MODE"]
     = Built (mk_state
                [ Header Angled "windows.h";
                  Header Angled "wdf.h";
                  Header Quoted "TraceLoggingProvider.h" ]
                [ Defined "UMDF_VERSION_MAJOR";
                  Or (Defined "KMDF_VERSION_MAJOR")
                     (Defined "UMDF_VERSION_MAJOR") ]).
Proof.
  repeat split; reflexivity.
Qed.

(** C4, amended: when [UMDF_VERSION_MAJOR] and [_KERNEL_MODE] are both
    defined the build succeeds; it emits [<windows.h>], [<wdf.h>] and
    [TraceLoggingProvider.h], exactly as a build with [UMDF_VERSION_MAJOR]
    alone. *)
Theorem umdf_overrides_kernel_mode (flags : list string) :
  defined flags "UMDF_VERSION_MAJOR" = true ->
  defined flags "_KERNEL_MODE" = true ->
  preprocess part_000 flags = preprocess part_000 ["UMDF_VERSION_MAJOR"]
  /\ exists st,
       preprocess part_000 flags = Built st
       /\ emitted st
          = [ Header Angled "windows.h";
              Header Angled "wdf.h";
              Header Quoted "TraceLoggingProvider.h" ].
Proof.
  intros Hu Hk. rewrite (umdf_build flags Hu). split; [reflexivity |].
  exists umdf_state. split; reflexivity.
Qed.

Lemma umdf_overrides_kernel_mode_witness :
  defined ["_KERNEL_MODE"; "UMDF_VERSION_MAJOR"] "UMDF_VERSION_MAJOR" = true
  /\ defined ["_KERNEL_MODE"; "UMDF_VERSION_MAJOR"] "_KERNEL_MODE" = true
  /\ preprocess part_000 ["_KERNEL_MODE"; "UMDF_VERSION_MAJOR"]
     = preprocess part_000 ["UMDF_VERSION_MAJOR"]
  /\ exists st,
       preprocess part_000 ["_KERNEL_MODE"; "UMDF_VERSION_MAJOR"] = Built st
       /\ emitted st
          = [ Header Angled "windows.h";
              Header Angled "wdf.h";
              Header Quoted "TraceLoggingProvider.h" ].
Proof.
  split; [reflexivity |]. split; [reflexivity |].
  apply (umdf_overrides_kernel_mode ["_KERNEL_MODE"; "UMDF_VERSION_MAJOR"]);
    reflexivity.
Defined.

(** [usb-input.h] tests [_KERNEL_MODE] only: its output is the same
    eleven headers in every configuration, followed by the UDE header in
    kernel mode. *)
Lemma usb_input_build (flags : list string) :
  preprocess usb_input flags
  = Built (mk_state
             ([ Header Quoted "ntddk.h";
                Header Quoted "usbspec.h";
                Header Quoted "usb.h";
                Header Quoted "usbbusif.h";
                Header Quoted "usbioctl.h";
                Header Quoted "usbdlib.h";
                Header Quoted "usbfnbase.h";
                Header Quoted "usbfnattach.h";
                Header Quoted "usbfnioctl.h";
                Header Quoted "wdf.h";
                Header Quoted "wdfusb.h" ]
              ++ (if defined flags "_KERNEL_MODE"
                  then [Header Quoted "ude/1.0/UdeCx.h"]
                  else []))
             [Defined "_KERNEL_MODE"]).
Proof.
  by_config flags; reflexivity.
Qed.

(** C5, as the spec states it, fails: with no macro defined at all the
    build emits the HID, USB, SPB and GPIO headers; the SPB headers are
    there although no SPB version flag exists. *)
Lemma no_flags_still_include_groups :
  exists st,
    preprocess part_000 [] = Built st
    /\ In (Header Quoted "hidclass.h") (emitted st)
    /\ In (Header Quoted "usb.h") (emitted st)
    /\ In (Header Quoted "spb.h") (emitted st)
    /\ In (Header Quoted "spb/1.1/spbcx.h") (emitted st)
    /\ In (Header Quoted "gpio.h") (emitted st).
Proof.
  eexists. split; [reflexivity |]. repeat split; cbv - [KGDTENTRY64 KIDTENTRY64]; pick.
Qed.

(** C5, amended: a group under an [#if] or [#ifdef] of its own is excluded
    when its macro is absent: the [_KERNEL_MODE] block needs [_KERNEL_MODE]
    (and no [UMDF_VERSION_MAJOR]), [<wdf.h>] needs [KMDF_VERSION_MAJOR] or
    [UMDF_VERSION_MAJOR], [<windows.h>] needs [UMDF_VERSION_MAJOR].  Every
    other declaration of the [#else] branch (HID, USB, SPB, GPIO and
    parallel-port headers, the two typedefs) is emitted exactly when
    [UMDF_VERSION_MAJOR] is not defined. *)
Theorem groups_selected_by_flags (flags : list string) :
  exists st,
    preprocess part_000 flags = Built st
    /\ (forall d, In d (all_leaves kernel_mode_block) ->
          (In d (emitted st) <->
           defined flags "UMDF_VERSION_MAJOR" = false
           /\ defined flags "_KERNEL_MODE" = true))
    /\ (In (Header Angled "wdf.h") (emitted st) <->
        defined flags "KMDF_VERSION_MAJOR" = true
        \/ defined flags "UMDF_VERSION_MAJOR" = true)
    /\ (In (Header Angled "windows.h") (emitted st) <->
        defined flags "UMDF_VERSION_MAJOR" = true)
    /\ (forall d, In d (unconditional non_umdf_branch) ->
          (In d (emitted st) <-> defined flags "UMDF_VERSION_MAJOR" = false)).
Proof.
  by_config flags;
    (eexists; split; [reflexivity |];
     split; [| split; [| split]];
     [ intros d Hd; split;
       [ intros Hin; first [split; reflexivity | excluded Hd Hin]
       | intros [H1 H2];
         first [discriminate H1 | discriminate H2 | included Hd] ]
     | split;
       [ intros Hin; first [left; reflexivity | right; reflexivity
                           | absurd_member Hin]
       | intros [H | H]; first [discriminate H | cbv - [KGDTENTRY64 KIDTENTRY64]; pick] ]
     | split;
       [ intros Hin; first [reflexivity | absurd_member Hin]
       | intros H; first [discriminate H | cbv - [KGDTENTRY64 KIDTENTRY64]; pick] ]
     | intros d Hd; split;
       [ intros Hin; first [reflexivity | excluded Hd Hin]
       | intros H; first [discriminate H | included Hd] ] ]).
Qed.

(** C6: with [UMDF_VERSION_MAJOR] defined, whatever else is defined, the
    build emits no declaration of the [#else] branch: no typedef at all
    (so neither [KGDTENTRY64] nor [KIDTENTRY64]) and no header name of that
    branch apart from [wdf.h], which the framework block includes for
    user-mode builds too.  The nested [_KERNEL_MODE] condition is not
    evaluated. *)
Theorem umdf_excludes_kernel_groups (flags : list string) :
  defined flags "UMDF_VERSION_MAJOR" = true ->
  exists st,
    preprocess part_000 flags = Built st
    /\ (forall d, In d (all_leaves non_umdf_branch) -> ~ In d (emitted st))
    /\ (forall d, In d (emitted st) -> is_type_decl d = false)
    /\ ~ In "KGDTENTRY64" (names (emitted st))
    /\ ~ In "KIDTENTRY64" (names (emitted st))
    /\ (forall n, In n (names (all_leaves non_umdf_branch)) ->
          n <> "wdf.h" -> ~ In n (names (emitted st)))
    /\ ~ In (Defined "_KERNEL_MODE") (tested st).
Proof.
  intros Hu. exists umdf_state. split; [exact (umdf_build flags Hu) |].
  repeat split.
  - intros d Hd Hin. cbv - [KGDTENTRY64 KIDTENTRY64] in Hd.
    repeat (destruct Hd as [<- | Hd]; [absurd_member Hin |]).
    contradiction.
  - intros d Hin. cbv - [KGDTENTRY64 KIDTENTRY64] in Hin.
    repeat (destruct Hin as [<- | Hin]; [reflexivity |]). contradiction.
  - intros Hin. absurd_member Hin.
  - intros Hin. absurd_member Hin.
  - intros n Hn Hneq Hin. cbv - [KGDTENTRY64 KIDTENTRY64] in Hin.
    destruct Hin as [<- | [<- | [<- | []]]];
      try (now apply Hneq); absurd_member Hn.
  - intros Hin. absurd_member Hin.
Qed.

Lemma umdf_excludes_kernel_groups_witness :
  defined ["UMDF_VERSION_MAJOR"; "_KERNEL_MODE"] "UMDF_VERSION_MAJOR" = true
  /\ exists st,
       preprocess part_000 ["UMDF_VERSION_MAJOR"; "_KERNEL_MODE"] = Built st
       /\ (forall d, In d (all_leaves non_umdf_branch) -> ~ In d (emitted st))
       /\ (forall d, In d (emitted st) -> is_type_decl d = false)
       /\ ~ In "KGDTENTRY64" (names (emitted st))
       /\ ~ In "KIDTENTRY64" (names (emitted st))
       /\ (forall n, In n (names (all_leaves non_umdf_branch)) ->
             n <> "wdf.h" -> ~ In n (names (emitted st)))
       /\ ~ In (Defined "_KERNEL_MODE") (tested st).
Proof.
  split; [reflexivity |].
  apply (umdf_excludes_kernel_groups ["UMDF_VERSION_MAJOR"; "_KERNEL_MODE"]).
  reflexivity.
Defined.

(** C7, as the spec states it, fails: a build whose only macro is
    [_KERNEL_MODE] (nothing selects storage) emits [ntddstor.h]. *)
Lemma kernel_build_includes_storage :
  defined ["_KERNEL_MODE"] "_KERNEL_MODE" = true
  /\ exists st,
       preprocess part_000 ["_KERNEL_MODE"] = Built st
       /\ In (Header Quoted "ntddstor.h") (emitted st).
Proof.
  split; [reflexivity |].
  eexists. split; [reflexivity | cbv - [KGDTENTRY64 KIDTENTRY64]; pick].
Qed.

(** C7, amended: every build with [_KERNEL_MODE] defined and
    [UMDF_VERSION_MAJOR] not defined emits [ntddstor.h], whatever else is
    or is not defined; the only conditions such a build evaluates are the
    two mode tests and the framework test, none of them about storage. *)
Theorem storage_in_every_kernel_build (flags : list string) :
  defined flags "UMDF_VERSION_MAJOR" = false ->
  defined flags "_KERNEL_MODE" = true ->
  exists st,
    preprocess part_000 flags = Built st
    /\ In (Header Quoted "ntddstor.h") (emitted st)
    /\ tested st
       = [ Defined "UMDF_VERSION_MAJOR";
           Defined "_KERNEL_MODE";
           Or (Defined "KMDF_VERSION_MAJOR") (Defined "UMDF_VERSION_MAJOR") ].
Proof.
  intros Hu Hk. by_config flags;
    (eexists; split; [reflexivity |]; split; [cbv - [KGDTENTRY64 KIDTENTRY64]; pick | reflexivity]).
Qed.

Lemma storage_in_every_kernel_build_witness :
  defined ["_KERNEL_MODE"; "KMDF_VERSION_MAJOR"] "UMDF_VERSION_MAJOR" = false
  /\ defined ["_KERNEL_MODE"; "KMDF_VERSION_MAJOR"] "_KERNEL_MODE" = true
  /\ exists st,
       preprocess part_000 ["_KERNEL_MODE"; "KMDF_VERSION_MAJOR"] = Built st
       /\ In (Header Quoted "ntddstor.h") (emitted st)
       /\ tested st
          = [ Defined "UMDF_VERSION_MAJOR";
              Defined "_KERNEL_MODE";
              Or (Defined "KMDF_VERSION_MAJOR")
                 (Defined "UMDF_VERSION_MAJOR") ].
Proof.
  split; [reflexivity |]. split; [reflexivity |].
  apply (storage_in_every_kernel_build ["_KERNEL_MODE"; "KMDF_VERSION_MAJOR"]);
    reflexivity.
Defined.

(** C8: two builds whose configurations define the same macros yield the
    same outcome, with the same declarations in the same order, for both
    headers. *)
Theorem same_flags_same_output (f1 f2 : list string) :
  same_flags f1 f2 ->
  preprocess part_000 f1 = preprocess part_000 f2
  /\ preprocess usb_input f1 = preprocess usb_input f2.
Proof.
  intros H. unfold preprocess.
  split; apply run_all_ext; intros m _; apply H.
Qed.

Lemma same_flags_same_output_witness :
  same_flags ["_KERNEL_MODE"; "KMDF_VERSION_MAJOR"]
             ["KMDF_VERSION_MAJOR"; "_KERNEL_MODE"; "KMDF_VERSION_MAJOR"]
  /\ preprocess part_000 ["_KERNEL_MODE"; "KMDF_VERSION_MAJOR"]
     = preprocess part_000
         ["KMDF_VERSION_MAJOR"; "_KERNEL_MODE"; "KMDF_VERSION_MAJOR"]
  /\ preprocess usb_input ["_KERNEL_MODE"; "KMDF_VERSION_MAJOR"]
     = preprocess usb_input
         ["KMDF_VERSION_MAJOR"; "_KERNEL_MODE"; "KMDF_VERSION_MAJOR"].
Proof.
  assert (H : same_flags ["_KERNEL_MODE"; "KMDF_VERSION_MAJOR"]
                ["KMDF_VERSION_MAJOR"; "_KERNEL_MODE"; "KMDF_VERSION_MAJOR"]).
  { intros m. unfold defined. simpl.
    destruct (String.eqb m "_KERNEL_MODE"),
             (String.eqb m "KMDF_VERSION_MAJOR"); reflexivity. }
  split; [exact H | exact (same_flags_same_output _ _ H)].
Defined.

(** C9: in every configuration both headers build, and in the output every
    header a declaration references stands strictly earlier: [usbspec.h]
    and [usb.h] before [usbbusif.h], [usbioctl.h], [usbdlib.h], the three
    [usbfn] headers and [wdfusb.h], and [wdf.h] before [wdfusb.h].  The
    referencing headers are in the output of [usb-input.h] always and of
    the main header whenever [UMDF_VERSION_MAJOR] is not defined. *)
Theorem dependencies_emitted_first (flags : list string) :
  (exists st,
     preprocess part_000 flags = Built st
     /\ dependency_ordered (emitted st)
     /\ forallb (fun h => mem h (names (emitted st)))
                (map fst header_references)
        = negb (defined flags "UMDF_VERSION_MAJOR"))
  /\ (exists st,
        preprocess usb_input flags = Built st
        /\ dependency_ordered (emitted st)
        /\ forallb (fun h => mem h (names (emitted st)))
                   (map fst header_references)
           = true).
Proof.
  by_config flags;
    (split; eexists; (split; [reflexivity |]);
     (split; [apply ordered_after_nil |]); reflexivity).
Qed.

(** ** Reading and writing fields *)

Lemma well_placed_spec (p : placed) :
  well_placed p = true -> 0 <= p_offset p /\ 0 <= p_width p.
Proof.
  unfold well_placed. rewrite andb_true_iff, !Z.leb_le. tauto.
Qed.

Lemma read_field_spec (s : Z) (p : placed) :
  0 <= p_offset p -> 0 <= p_width p ->
  read_field s p = (s / 2 ^ p_offset p) mod 2 ^ p_width p.
Proof.
  intros Ho Hw. unfold read_field.
  now rewrite Z.land_ones, Z.shiftr_div_pow2.
Qed.

Lemma testbit_write_field (s : Z) (p : placed) (x : Z) (n : Z) :
  0 <= p_offset p -> 0 <= p_width p -> 0 <= n ->
  Z.testbit (write_field s p x) n
  = if (p_offset p <=? n) && (n <? p_offset p + p_width p)
    then Z.testbit x (n - p_offset p)
    else Z.testbit s n.
Proof.
  intros Ho Hw Hn. unfold write_field.
  rewrite Z.lor_spec, Z.land_spec, Z.lnot_spec by lia.
  rewrite !Z.shiftl_spec by lia.
  rewrite Z.land_spec.
  destruct (Z.leb_spec (p_offset p) n) as [Hle | Hlt]; simpl.
  - rewrite !Z.testbit_ones_nonneg by lia.
    destruct (Z.ltb_spec n (p_offset p + p_width p)) as [Hin | Hout].
    + replace (n - p_offset p <? p_width p) with true
        by (symmetry; apply Z.ltb_lt; lia).
      simpl. now rewrite andb_false_r, andb_true_r.
    + replace (n - p_offset p <? p_width p) with false
        by (symmetry; apply Z.ltb_ge; lia).
      simpl. now rewrite andb_true_r, andb_false_r, orb_false_r.
  - rewrite !(Z.testbit_neg_r _ (n - p_offset p)) by lia.
    simpl. now rewrite andb_true_r, orb_false_r.
Qed.

(** A field reads back what was written to it, cut to the field's
    width. *)
Lemma read_write_same (s : Z) (p : placed) (x : Z) :
  well_placed p = true ->
  read_field (write_field s p x) p = x mod 2 ^ p_width p.
Proof.
  intros Hp. apply well_placed_spec in Hp as [Ho Hw].
  rewrite <- Z.land_ones by lia. unfold read_field.
  apply Z.bits_inj'. intros n Hn.
  rewrite !Z.land_spec, Z.shiftr_spec by lia.
  rewrite testbit_write_field by lia.
  rewrite Z.testbit_ones_nonneg by lia.
  destruct (Z.ltb_spec n (p_width p)) as [Hin | Hout].
  - replace (p_offset p <=? n + p_offset p) with true
      by (symmetry; apply Z.leb_le; lia).
    replace (n + p_offset p <? p_offset p + p_width p) with true
      by (symmetry; apply Z.ltb_lt; lia).
    simpl. now replace (n + p_offset p - p_offset p) with n by lia.
  - now rewrite !andb_false_r.
Qed.

(** Writing a field leaves a field that shares no bit with it as it
    was. *)
Lemma read_write_apart (s : Z) (p q : placed) (x : Z) :
  well_placed p = true -> well_placed q = true -> apart p q = true ->
  read_field (write_field s p x) q = read_field s q.
Proof.
  intros Hp Hq Hpq.
  apply well_placed_spec in Hp as [Hpo Hpw].
  apply well_placed_spec in Hq as [Hqo Hqw].
  unfold apart in Hpq. rewrite orb_true_iff, !Z.leb_le in Hpq.
  unfold read_field. apply Z.bits_inj'. intros n Hn.
  rewrite !Z.land_spec, !Z.shiftr_spec by lia.
  rewrite testbit_write_field by lia.
  rewrite Z.testbit_ones_nonneg by lia.
  destruct (Z.ltb_spec n (p_width q)) as [Hin | Hout];
    [| now rewrite !andb_false_r].
  rewrite !andb_true_r.
  destruct (Z.leb_spec (p_offset p) (n + p_offset q)) as [Hle | Hlt];
    [| reflexivity].
  destruct (Z.ltb_spec (n + p_offset q) (p_offset p + p_width p))
    as [Hlt | Hge]; [lia | reflexivity].
Qed.

Lemma separate_spec (ps : list placed) (p q : placed) :
  separate ps = true -> In p ps -> In q ps -> p_name p <> p_name q ->
  well_placed p = true /\ well_placed q = true /\ apart p q = true.
Proof.
  unfold separate. rewrite andb_true_iff, !forallb_forall.
  intros [Hwell Hpairs] Hp Hq Hneq.
  repeat split; [now apply Hwell | now apply Hwell |].
  specialize (Hpairs p Hp). rewrite forallb_forall in Hpairs.
  specialize (Hpairs q Hq). apply orb_true_iff in Hpairs as [Heq | Hap];
    [| exact Hap].
  apply String.eqb_eq in Heq. contradiction.
Qed.

Lemma contiguous_from_le (ps : list placed) :
  forall from to,
    forallb well_placed ps = true ->
    contiguous_from from ps = Some to -> from <= to.
Proof.
  induction ps as [|p ps IH]; intros from to Hwell Hc; simpl in *.
  - inversion Hc. lia.
  - apply andb_true_iff in Hwell as [Hp Hps].
    apply well_placed_spec in Hp as [_ Hw].
    destruct (Z.eqb_spec (p_offset p) from); [| discriminate].
    specialize (IH _ _ Hps Hc). lia.
Qed.

(** Fields that follow each other without a gap from bit [from] to bit
    [to] are, read together, the bits [from .. to) of the object. *)
Lemma packed_contiguous (s : Z) (base : Z) (ps : list placed) :
  forall from to,
    base <= from -> 0 <= from ->
    forallb well_placed ps = true ->
    contiguous_from from ps = Some to ->
    packed s base ps
    = 2 ^ (from - base) * ((s / 2 ^ from) mod 2 ^ (to - from)).
Proof.
  induction ps as [|p ps IH]; intros from to Hb Hf Hwell Hc; simpl in *.
  - inversion Hc; subst. rewrite Z.sub_diag. simpl.
    rewrite Z.mod_1_r. lia.
  - apply andb_true_iff in Hwell as [Hp Hps].
    pose proof (contiguous_from_le ps) as Hle.
    apply well_placed_spec in Hp as [Ho Hw].
    destruct (Z.eqb_spec (p_offset p) from) as [Heq | ]; [| discriminate].
    specialize (Hle _ _ Hps Hc).
    rewrite (IH (from + p_width p) to) by (auto; lia).
    rewrite read_field_spec by lia. rewrite Heq.
    replace (to - from) with (p_width p + (to - (from + p_width p))) by lia.
    rewrite (Z.pow_add_r 2 (p_width p)) by lia.
    rewrite Z.rem_mul_r by (try apply Z.pow_nonzero; try apply Z.pow_pos_nonneg; lia).
    replace (from + p_width p - base) with ((from - base) + p_width p) by lia.
    rewrite (Z.pow_add_r 2 (from - base)) by lia.
    rewrite (Z.pow_add_r 2 from) by lia.
    rewrite <- Z.div_div by (try apply Z.pow_nonzero; try apply Z.pow_pos_nonneg; lia).
    replace (p_width p + (to - (from + p_width p)) - p_width p)
      with (to - (from + p_width p)) by lia.
    ring.
Qed.

Lemma read_as_packed (s : Z) (p : placed) (ps : list placed) :
  well_placed p = true ->
  forallb well_placed ps = true ->
  contiguous_from (p_offset p) ps = Some (p_offset p + p_width p) ->
  read_field s p = packed s (p_offset p) ps.
Proof.
  intros Hp Hps Hc. apply well_placed_spec in Hp as [Ho Hw].
  rewrite (packed_contiguous s (p_offset p) ps _ _ (Z.le_refl _) Ho Hps Hc).
  rewrite read_field_spec by assumption.
  rewrite Z.sub_diag. simpl (2 ^ 0).
  replace (p_offset p + p_width p - p_offset p) with (p_width p) by lia.
  lia.
Qed.

(** Replace every [locate t name] of the goal by the place it computes
    to. *)
Ltac locate_all :=
  unfold field_value, set_field;
  repeat match goal with
         | |- context [locate ?t ?n] =>
             let r := eval vm_compute in (locate t n) in
             change (locate t n) with r
         end;
  cbn [option_map].

Ltac by_packing p ps :=
  rewrite (read_as_packed _ p ps) by reflexivity;
  cbn [packed p_offset p_width];
  repeat match goal with
         | |- context [2 ^ ?e] =>
             let v := eval vm_compute in (2 ^ e) in
             change (2 ^ e) with v
         end;
  lia.

(** ** The descriptor entries as storage *)

(** In [KGDTENTRY64] the [Bytes] view packs the [Bits] view: [BaseMiddle]
    and [BaseHigh] are the same byte in both, [Flags1] holds [Type] in its
    bits 0-4, [Dpl] in bits 5-6 and [Present] in bit 7, and [Flags2] holds
    [LimitHigh] in bits 0-3 and [System], [LongMode], [DefaultBig],
    [Granularity] in bits 4, 5, 6, 7. *)
Theorem KGDTENTRY64_bytes_pack_bits (s : Z) :
  exists base_middle type dpl present limit_high system long_mode
         default_big granularity base_high,
    field_value KGDTENTRY64 "Bits.BaseMiddle" s = Some base_middle
    /\ field_value KGDTENTRY64 "Bits.Type" s = Some type
    /\ field_value KGDTENTRY64 "Bits.Dpl" s = Some dpl
    /\ field_value KGDTENTRY64 "Bits.Present" s = Some present
    /\ field_value KGDTENTRY64 "Bits.LimitHigh" s = Some limit_high
    /\ field_value KGDTENTRY64 "Bits.System" s = Some system
    /\ field_value KGDTENTRY64 "Bits.LongMode" s = Some long_mode
    /\ field_value KGDTENTRY64 "Bits.DefaultBig" s = Some default_big
    /\ field_value KGDTENTRY64 "Bits.Granularity" s = Some granularity
    /\ field_value KGDTENTRY64 "Bits.BaseHigh" s = Some base_high
    /\ field_value KGDTENTRY64 "Bytes.BaseMiddle" s = Some base_middle
    /\ field_value KGDTENTRY64 "Bytes.Flags1" s
       = Some (type + 32 * dpl + 128 * present)
    /\ field_value KGDTENTRY64 "Bytes.Flags2" s
       = Some (limit_high + 16 * system + 32 * long_mode
               + 64 * default_big + 128 * granularity)
    /\ field_value KGDTENTRY64 "Bytes.BaseHigh" s = Some base_high.
Proof.
  locate_all.
  do 10 eexists.
  do 10 (split; [reflexivity |]).
  split; [reflexivity |].
  split; [| split; [| reflexivity]]; f_equal.
  - by_packing (mk_placed "Bytes.Flags1" 40 8)
      [ mk_placed "Bits.Type" 40 5;
        mk_placed "Bits.Dpl" 45 2;
        mk_placed "Bits.Present" 47 1 ].
  - by_packing (mk_placed "Bytes.Flags2" 48 8)
      [ mk_placed "Bits.LimitHigh" 48 4;
        mk_placed "Bits.System" 52 1;
        mk_placed "Bits.LongMode" 53 1;
        mk_placed "Bits.DefaultBig" 54 1;
        mk_placed "Bits.Granularity" 55 1 ].
Qed.

(** In [KIDTENTRY64] the integer [Alignment] is the lower 8 bytes of the
    16-byte entry: it reads as [OffsetLow], [Selector], the five bit-fields
    and [OffsetMiddle] packed at bits 0, 16, 32, 35, 40, 45, 47 and 48;
    writing it sets those 64 bits and leaves [OffsetHigh] and [Reserved1]
    as they were. *)
Theorem KIDTENTRY64_Alignment_lower_half (s x : Z) :
  exists offset_low selector ist_index reserved0 type dpl present
         offset_middle offset_high reserved1 s',
    field_value KIDTENTRY64 "OffsetLow" s = Some offset_low
    /\ field_value KIDTENTRY64 "Selector" s = Some selector
    /\ field_value KIDTENTRY64 "IstIndex" s = Some ist_index
    /\ field_value KIDTENTRY64 "Reserved0" s = Some reserved0
    /\ field_value KIDTENTRY64 "Type" s = Some type
    /\ field_value KIDTENTRY64 "Dpl" s = Some dpl
    /\ field_value KIDTENTRY64 "Present" s = Some present
    /\ field_value KIDTENTRY64 "OffsetMiddle" s = Some offset_middle
    /\ field_value KIDTENTRY64 "OffsetHigh" s = Some offset_high
    /\ field_value KIDTENTRY64 "Reserved1" s = Some reserved1
    /\ field_value KIDTENTRY64 "Alignment" s
       = Some (offset_low + 2 ^ 16 * selector + 2 ^ 32 * ist_index
               + 2 ^ 35 * reserved0 + 2 ^ 40 * type + 2 ^ 45 * dpl
               + 2 ^ 47 * present + 2 ^ 48 * offset_middle)
    /\ set_field KIDTENTRY64 "Alignment" x s = Some s'
    /\ field_value KIDTENTRY64 "Alignment" s' = Some (x mod 2 ^ 64)
    /\ field_value KIDTENTRY64 "OffsetHigh" s' = Some offset_high
    /\ field_value KIDTENTRY64 "Reserved1" s' = Some reserved1.
Proof.
  locate_all.
  do 11 eexists.
  do 10 (split; [reflexivity |]).
  split; [| split; [reflexivity | split; [| split]]]; f_equal.
  - by_packing (mk_placed "Alignment" 0 64)
      [ mk_placed "OffsetLow" 0 16;
        mk_placed "Selector" 16 16;
        mk_placed "IstIndex" 32 3;
        mk_placed "Reserved0" 35 5;
        mk_placed "Type" 40 5;
        mk_placed "Dpl" 45 2;
        mk_placed "Present" 47 1;
        mk_placed "OffsetMiddle" 48 16 ].
  - now rewrite read_write_same.
  - now rewrite read_write_apart.
  - now rewrite read_write_apart.
Qed.

(** In [KGDTENTRY64] the integer [Alignment] is the lower 8 bytes of the
    16-byte entry: it reads as [LimitLow], [BaseLow] and the four [Bytes]
    packed at bits 0, 16, 32, 40, 48 and 56; writing it sets those 64 bits
    and leaves [BaseUpper] and [MustBeZero] as they were. *)
Theorem KGDTENTRY64_Alignment_lower_half (s x : Z) :
  exists limit_low base_low base_middle flags1 flags2 base_high
         base_upper must_be_zero s',
    field_value KGDTENTRY64 "LimitLow" s = Some limit_low
    /\ field_value KGDTENTRY64 "BaseLow" s = Some base_low
    /\ field_value KGDTENTRY64 "Bytes.BaseMiddle" s = Some base_middle
    /\ field_value KGDTENTRY64 "Bytes.Flags1" s = Some flags1
    /\ field_value KGDTENTRY64 "Bytes.Flags2" s = Some flags2
    /\ field_value KGDTENTRY64 "Bytes.BaseHigh" s = Some base_high
    /\ field_value KGDTENTRY64 "BaseUpper" s = Some base_upper
    /\ field_value KGDTENTRY64 "MustBeZero" s = Some must_be_zero
    /\ field_value KGDTENTRY64 "Alignment" s
       = Some (limit_low + 2 ^ 16 * base_low + 2 ^ 32 * base_middle
               + 2 ^ 40 * flags1 + 2 ^ 48 * flags2 + 2 ^ 56 * base_high)
    /\ set_field KGDTENTRY64 "Alignment" x s = Some s'
    /\ field_value KGDTENTRY64 "Alignment" s' = Some (x mod 2 ^ 64)
    /\ field_value KGDTENTRY64 "BaseUpper" s' = Some base_upper
    /\ field_value KGDTENTRY64 "MustBeZero" s' = Some must_be_zero.
Proof.
  locate_all.
  do 9 eexists.
  do 8 (split; [reflexivity |]).
  split; [| split; [reflexivity | split; [| split]]]; f_equal.
  - by_packing (mk_placed "Alignment" 0 64)
      [ mk_placed "LimitLow" 0 16;
        mk_placed "BaseLow" 16 16;
        mk_placed "Bytes.BaseMiddle" 32 8;
        mk_placed "Bytes.Flags1" 40 8;
        mk_placed "Bytes.Flags2" 48 8;
        mk_placed "Bytes.BaseHigh" 56 8 ].
  - now rewrite read_write_same.
  - now rewrite read_write_apart.
  - now rewrite read_write_apart.
Qed.

(** In the structured view of [KIDTENTRY64] a field reads back what was
    written to it, cut to its width, and writing it leaves every other
    field as it was. *)
Theorem KIDTENTRY64_fields_independent (p q : placed) (s x : Z) :
  In p (scalar_fields KIDTENTRY64_fields 0 "") ->
  In q (scalar_fields KIDTENTRY64_fields 0 "") ->
  p_name p <> p_name q ->
  read_field (write_field s p x) p = x mod 2 ^ p_width p
  /\ read_field (write_field s p x) q = read_field s q.
Proof.
  intros Hp Hq Hneq.
  assert (Hsep : separate (scalar_fields KIDTENTRY64_fields 0 "") = true)
    by reflexivity.
  destruct (separate_spec _ p q Hsep Hp Hq Hneq) as (Wp & Wq & Hapart).
  split; [now apply read_write_same | now apply read_write_apart].
Qed.

Lemma KIDTENTRY64_fields_independent_witness :
  In (mk_placed "Type" 40 5) (scalar_fields KIDTENTRY64_fields 0 "")
  /\ In (mk_placed "Dpl" 45 2) (scalar_fields KIDTENTRY64_fields 0 "")
  /\ read_field (write_field 0 (mk_placed "Type" 40 5) 14)
                (mk_placed "Type" 40 5)
     = 14 mod 2 ^ 5
  /\ read_field (write_field 0 (mk_placed "Type" 40 5) 14)
                (mk_placed "Dpl" 45 2)
     = read_field 0 (mk_placed "Dpl" 45 2).
Proof.
  assert (Hp : In (mk_placed "Type" 40 5)
                 (scalar_fields KIDTENTRY64_fields 0 ""))
    by (vm_compute; do 4 right; left; reflexivity).
  assert (Hq : In (mk_placed "Dpl" 45 2)
                 (scalar_fields KIDTENTRY64_fields 0 ""))
    by (vm_compute; do 5 right; left; reflexivity).
  split; [exact Hp |]. split; [exact Hq |].
  apply (KIDTENTRY64_fields_independent
           (mk_placed "Type" 40 5) (mk_placed "Dpl" 45 2) 0 14 Hp Hq).
  simpl. discriminate.
Defined.

(** In the structured view of [KGDTENTRY64], with the middle storage
    accessed through one of [Bytes] and [Bits] only, a field reads back
    what was written to it, cut to its width, and writing it leaves every
    other field as it was. *)
Theorem KGDTENTRY64_fields_independent
    (other : string) (p q : placed) (s x : Z) :
  In other ["Bytes."; "Bits."] ->
  In p (view_fields other KGDTENTRY64_fields) ->
  In q (view_fields other KGDTENTRY64_fields) ->
  p_name p <> p_name q ->
  read_field (write_field s p x) p = x mod 2 ^ p_width p
  /\ read_field (write_field s p x) q = read_field s q.
Proof.
  intros Hother Hp Hq Hneq.
  assert (Hsep : separate (view_fields other KGDTENTRY64_fields) = true)
    by (destruct Hother as [<- | [<- | []]]; reflexivity).
  destruct (separate_spec _ p q Hsep Hp Hq Hneq) as (Wp & Wq & Hapart).
  split; [now apply read_write_same | now apply read_write_apart].
Qed.

Lemma KGDTENTRY64_fields_independent_witness :
  In "Bytes." ["Bytes."; "Bits."]
  /\ In (mk_placed "Bits.Present" 47 1)
        (view_fields "Bytes." KGDTENTRY64_fields)
  /\ In (mk_placed "BaseUpper" 64 32)
        (view_fields "Bytes." KGDTENTRY64_fields)
  /\ read_field (write_field 0 (mk_placed "Bits.Present" 47 1) 1)
                (mk_placed "Bits.Present" 47 1)
     = 1 mod 2 ^ 1
  /\ read_field (write_field 0 (mk_placed "Bits.Present" 47 1) 1)
                (mk_placed "BaseUpper" 64 32)
     = read_field 0 (mk_placed "BaseUpper" 64 32).
Proof.
  assert (Ho : In "Bytes." ["Bytes."; "Bits."]) by (left; reflexivity).
  assert (Hp : In (mk_placed "Bits.Present" 47 1)
                 (view_fields "Bytes." KGDTENTRY64_fields))
    by (vm_compute; do 5 right; left; reflexivity).
  assert (Hq : In (mk_placed "BaseUpper" 64 32)
                 (view_fields "Bytes." KGDTENTRY64_fields))
    by (vm_compute; do 12 right; left; reflexivity).
  split; [exact Ho |]. split; [exact Hp |]. split; [exact Hq |].
  apply (KGDTENTRY64_fields_independent
           "Bytes." (mk_placed "Bits.Present" 47 1)
           (mk_placed "BaseUpper" 64 32) 0 1 Ho Hp Hq).
  simpl. discriminate.
Defined.

(** ** Output order and the macros that matter *)

Lemma subsequence_nil {A : Type} (m : list A) : subsequence [] m.
Proof.
  induction m as [|x m IH]; [apply sub_nil | now apply sub_skip].
Qed.

Lemma subsequence_refl {A : Type} (l : list A) : subsequence l l.
Proof.
  induction l as [|x l IH]; [apply sub_nil | now apply sub_keep].
Qed.

Lemma subsequence_app {A : Type} (l1 m1 l2 m2 : list A) :
  subsequence l1 m1 -> subsequence l2 m2 ->
  subsequence (l1 ++ l2) (m1 ++ m2).
Proof.
  induction 1 as [|x l m _ IH|x l m _ IH]; intros H2; simpl.
  - exact H2.
  - apply sub_skip. now apply IH.
  - apply sub_keep. now apply IH.
Qed.

(** What a build adds to the output is taken from the header's
    declarations, in the order the header writes them. *)
Lemma run_all_subsequence (env : string -> bool) (tu : list directive) :
  forall st st', run_all env tu st = Built st' ->
    exists l, emitted st' = emitted st ++ l
              /\ subsequence l (all_leaves tu).
Proof.
  assert (step : forall ds,
    Forall (fun d => forall st st', run env d st = Built st' ->
              exists l, emitted st' = emitted st ++ l
                        /\ subsequence l (leaves d)) ds ->
    forall st st', run_all env ds st = Built st' ->
      exists l, emitted st' = emitted st ++ l
                /\ subsequence l (all_leaves ds)).
  { induction 1 as [|d ds Hd _ IH]; intros st st' Hrun; simpl in Hrun.
    - inversion Hrun; subst. exists []. split; [now rewrite app_nil_r |].
      apply sub_nil.
    - destruct (run env d st) as [s1 |] eqn:Hd1; [| discriminate].
      destruct (Hd _ _ Hd1) as (l1 & E1 & S1).
      destruct (IH _ _ Hrun) as (l2 & E2 & S2).
      exists (l1 ++ l2). split.
      + now rewrite E2, E1, app_assoc.
      + simpl. now apply subsequence_app. }
  apply step. apply Forall_forall. intros d _. revert d.
  apply (directive_nested_ind
    (fun d => forall st st', run env d st = Built st' ->
       exists l, emitted st' = emitted st ++ l /\ subsequence l (leaves d))).
  - intros form name st st' H. inversion H; subst.
    eexists. split; [reflexivity | apply subsequence_refl].
  - intros tag body name pname st st' H. inversion H; subst.
    eexists. split; [reflexivity | apply subsequence_refl].
  - intros c thn els Hthn Hels st st' H.
    rewrite run_if in H. rewrite leaves_if.
    destruct (eval_cond env c).
    + destruct (step _ Hthn _ _ H) as (l & E & S).
      exists l. split; [exact E |].
      rewrite <- (app_nil_r l).
      apply subsequence_app; [exact S | apply subsequence_nil].
    + destruct (step _ Hels _ _ H) as (l & E & S).
      exists l. split; [exact E |].
      change l with ([] ++ l).
      apply subsequence_app; [apply subsequence_nil | exact S].
  - intros msg st st' H. discriminate.
  - intros a b msg st st' H. simpl in H.
    destruct (sizeof a =? sizeof b); [| discriminate].
    inversion H; subst. exists []. split; [now rewrite app_nil_r |].
    apply sub_nil.
Qed.

Lemma defined_cons (x : string) (flags : list string) (m : string) :
  defined (x :: flags) m = String.eqb m x || defined flags m.
Proof. reflexivity. Qed.

(** Decide [subsequence] on two explicit lists, keeping the first
    match. *)
Ltac subseq :=
  cbv - [KGDTENTRY64 KIDTENTRY64];
  repeat first [apply sub_nil | apply sub_keep | apply sub_skip].

(** In every configuration both headers build and their output lists
    declarations of the header in the header's order: none is added, moved
    or repeated. *)
Theorem output_in_source_order (flags : list string) :
  (exists st,
     preprocess part_000 flags = Built st
     /\ subsequence (emitted st) (all_leaves part_000))
  /\ (exists st,
        preprocess usb_input flags = Built st
        /\ subsequence (emitted st) (all_leaves usb_input)).
Proof.
  split.
  - destruct (run_all_without_checks (defined flags) part_000 eq_refl initial)
      as [st Hst].
    exists st. split; [exact Hst |].
    destruct (run_all_subsequence _ _ _ _ Hst) as (l & E & S).
    now rewrite E.
  - destruct (run_all_without_checks (defined flags) usb_input eq_refl initial)
      as [st Hst].
    exists st. split; [exact Hst |].
    destruct (run_all_subsequence _ _ _ _ Hst) as (l & E & S).
    now rewrite E.
Qed.

(** The main header looks at three macros only: two configurations that
    agree on [UMDF_VERSION_MAJOR], [KMDF_VERSION_MAJOR] and [_KERNEL_MODE]
    give the same outcome, whatever else they define. *)
Theorem main_header_reads_three_macros (f1 f2 : list string) :
  defined f1 "UMDF_VERSION_MAJOR" = defined f2 "UMDF_VERSION_MAJOR" ->
  defined f1 "KMDF_VERSION_MAJOR" = defined f2 "KMDF_VERSION_MAJOR" ->
  defined f1 "_KERNEL_MODE" = defined f2 "_KERNEL_MODE" ->
  preprocess part_000 f1 = preprocess part_000 f2.
Proof.
  intros Hu Hk Hm.
  rewrite (part_000_by_config f1), (part_000_by_config f2).
  unfold config_of. now rewrite Hu, Hk, Hm.
Qed.

Lemma main_header_reads_three_macros_witness :
  defined ["_KERNEL_MODE"; "DBG"] "UMDF_VERSION_MAJOR"
  = defined ["SPB_VERSION"; "_KERNEL_MODE"] "UMDF_VERSION_MAJOR"
  /\ defined ["_KERNEL_MODE"; "DBG"] "KMDF_VERSION_MAJOR"
     = defined ["SPB_VERSION"; "_KERNEL_MODE"] "KMDF_VERSION_MAJOR"
  /\ defined ["_KERNEL_MODE"; "DBG"] "_KERNEL_MODE"
     = defined ["SPB_VERSION"; "_KERNEL_MODE"] "_KERNEL_MODE"
  /\ preprocess part_000 ["_KERNEL_MODE"; "DBG"]
     = preprocess part_000 ["SPB_VERSION"; "_KERNEL_MODE"].
Proof.
  split; [reflexivity |]. split; [reflexivity |]. split; [reflexivity |].
  apply (main_header_reads_three_macros
           ["_KERNEL_MODE"; "DBG"] ["SPB_VERSION"; "_KERNEL_MODE"]);
    reflexivity.
Defined.

(** [usb-input.h] looks at [_KERNEL_MODE] only: two configurations that
    agree on it give the same outcome; in particular the header does not
    notice [UMDF_VERSION_MAJOR]. *)
Theorem usb_input_reads_kernel_mode_only (f1 f2 : list string) :
  defined f1 "_KERNEL_MODE" = defined f2 "_KERNEL_MODE" ->
  preprocess usb_input f1 = preprocess usb_input f2.
Proof.
  intros Hm. now rewrite (usb_input_build f1), (usb_input_build f2), Hm.
Qed.

Lemma usb_input_reads_kernel_mode_only_witness :
  defined ["UMDF_VERSION_MAJOR"; "_KERNEL_MODE"] "_KERNEL_MODE"
  = defined ["_KERNEL_MODE"] "_KERNEL_MODE"
  /\ preprocess usb_input ["UMDF_VERSION_MAJOR"; "_KERNEL_MODE"]
     = preprocess usb_input ["_KERNEL_MODE"].
Proof.
  split; [reflexivity |].
  apply (usb_input_reads_kernel_mode_only
           ["UMDF_VERSION_MAJOR"; "_KERNEL_MODE"] ["_KERNEL_MODE"]).
  reflexivity.
Defined.

(** Without [UMDF_VERSION_MAJOR], what [usb-input.h] emits is emitted by
    the main header under the same configuration too, in the same
    order. *)
Theorem usb_input_within_main_header (flags : list string) :
  defined flags "UMDF_VERSION_MAJOR" = false ->
  exists su sm,
    preprocess usb_input flags = Built su
    /\ preprocess part_000 flags = Built sm
    /\ subsequence (emitted su) (emitted sm).
Proof.
  intros Hu. by_config flags;
    (do 2 eexists; split; [reflexivity |]; split; [reflexivity |]; subseq).
Qed.

Lemma usb_input_within_main_header_witness :
  defined ["_KERNEL_MODE"; "KMDF_VERSION_MAJOR"] "UMDF_VERSION_MAJOR" = false
  /\ exists su sm,
       preprocess usb_input ["_KERNEL_MODE"; "KMDF_VERSION_MAJOR"] = Built su
       /\ preprocess part_000 ["_KERNEL_MODE"; "KMDF_VERSION_MAJOR"]
          = Built sm
       /\ subsequence (emitted su) (emitted sm).
Proof.
  split; [reflexivity |].
  apply (usb_input_within_main_header ["_KERNEL_MODE"; "KMDF_VERSION_MAJOR"]).
  reflexivity.
Defined.

Ltac eval_string_tests :=
  repeat match goal with
         | |- context [String.eqb ?a ?b] =>
             let v := eval vm_compute in (String.eqb a b) in
             change (String.eqb a b) with v
         end;
  cbn [orb].

(** Defining [_KERNEL_MODE] or [KMDF_VERSION_MAJOR] on top of any
    configuration only adds declarations to the output of the main header:
    what was emitted before is still emitted, in the same order. *)
Theorem defining_macros_only_adds (flags : list string) :
  exists st sk sf,
    preprocess part_000 flags = Built st
    /\ preprocess part_000 ("_KERNEL_MODE" :: flags) = Built sk
    /\ preprocess part_000 ("KMDF_VERSION_MAJOR" :: flags) = Built sf
    /\ subsequence (emitted st) (emitted sk)
    /\ subsequence (emitted st) (emitted sf).
Proof.
  rewrite (part_000_by_config ("_KERNEL_MODE" :: flags)).
  rewrite (part_000_by_config ("KMDF_VERSION_MAJOR" :: flags)).
  unfold config_of at 1 2. rewrite !defined_cons. eval_string_tests.
  by_config flags;
    (do 3 eexists; do 3 (split; [reflexivity |]); split; subseq).
Qed.

(** [wdf.h] is included in every configuration of the main header, also
    when neither framework macro is defined: once by the user-mode builds,
    once by the builds without any framework macro, and twice when
    [KMDF_VERSION_MAJOR] is defined without [UMDF_VERSION_MAJOR]. *)
Theorem wdf_in_every_build (flags : list string) :
  exists st,
    preprocess part_000 flags = Built st
    /\ List.length (filter (String.eqb "wdf.h") (names (emitted st)))
       = if defined flags "UMDF_VERSION_MAJOR" then 1%nat
         else if defined flags "KMDF_VERSION_MAJOR" then 2%nat
         else 1%nat.
Proof.
  by_config flags; (eexists; split; reflexivity).
Qed.

(** Every configuration of the main header starts with [<windows.h>]
    (user mode) or ["ntifs.h"] (otherwise) and ends with
    [TraceLoggingProvider.h], which is emitted exactly once. *)
Theorem first_and_last_declaration (flags : list string) :
  exists st,
    preprocess part_000 flags = Built st
    /\ hd_error (emitted st)
       = Some (if defined flags "UMDF_VERSION_MAJOR"
               then Header Angled "windows.h"
               else Header Quoted "ntifs.h")
    /\ last (emitted st) (Header Quoted "")
       = Header Quoted "TraceLoggingProvider.h"
    /\ List.length (filter (String.eqb "TraceLoggingProvider.h")
                           (names (emitted st)))
       = 1%nat.
Proof.
  by_config flags; (eexists; repeat split; reflexivity).
Qed.

(** The conditions a build of the main header evaluates: the
    [UMDF_VERSION_MAJOR] test first, the framework test last, and the
    [_KERNEL_MODE] test between them exactly when [UMDF_VERSION_MAJOR] is
    not defined. *)
Theorem conditions_evaluated (flags : list string) :
  exists st,
    preprocess part_000 flags = Built st
    /\ tested st
       = [Defined "UMDF_VERSION_MAJOR"]
         ++ (if defined flags "UMDF_VERSION_MAJOR"
             then []
             else [Defined "_KERNEL_MODE"])
         ++ [Or (Defined "KMDF_VERSION_MAJOR")
                (Defined "UMDF_VERSION_MAJOR")].
Proof.
  by_config flags; (eexists; split; reflexivity).
Qed.
